(** * Ball-Tracker: the decision logic and the loop driver of [main.py]

    The program reads frames from a capture device, looks for the largest
    green contour, reports whether its centroid lies left of, right of or
    inside a dead zone around the middle of the frame, and shows the
    annotated frame until the operator presses [q] or the stream ends.

    The image processing itself (resize, blur, colour conversion, masking,
    morphology, contour tracing, moments, enclosing circle) is OpenCV's.
    A contour is therefore represented by what the three OpenCV calls of
    [process_frame] report about it, and a frame by what the pipeline of
    lines 56-75 extracts from it. *)

From Stdlib Require Import ZArith QArith Bool List String Lia.
Import ListNotations.

Local Open Scope Z_scope.

(** ** Python values *)

Module Py.

(** Python exceptions the program can meet.  [ZeroDivisionError] and
    [Error] are subclasses of [Exception]; [KeyboardInterrupt] derives from
    [BaseException] only, so [except Exception] lets it through. *)
Inductive exn : Type :=
| ZeroDivisionError
| Error (msg : string)
| KeyboardInterrupt.

Definition is_Exception (e : exn) : bool :=
  match e with
  | ZeroDivisionError | Error _ => true
  | KeyboardInterrupt => false
  end.

(** [str(e)] as interpolated by an f-string. *)
Definition str (e : exn) : string :=
  match e with
  | ZeroDivisionError => "float division by zero"
  | Error msg => msg
  | KeyboardInterrupt => ""
  end.

(** A call either returns a value or raises. *)
Inductive outcome (A : Type) : Type :=
| Ret (a : A)
| Raise (e : exn).
Arguments Ret {A} a.
Arguments Raise {A} e.

Definition obind {A B} (o : outcome A) (k : A -> outcome B) : outcome B :=
  match o with
  | Ret a => k a
  | Raise e => Raise e
  end.

(** Finite floats are rationals; ordering a float against an integer
    constant is exact in Python, so [<] and [>] are the rational ones. *)
Definition float := Q.
Bind Scope Q_scope with float.

Definition Qltb (x y : Q) : bool := (Qnum x * QDen y <? Qnum y * QDen x)%Z.

Definition Qgtb (x y : Q) : bool := Qltb y x.

(** [int(x)] on a float truncates towards zero. *)
Definition int (x : float) : Z := Z.quot (Qnum x) (Zpos (Qden x)).

(** Truth value of an optional string: [None] and [''] are falsy. *)
Definition truthy (s : option string) : bool :=
  match s with
  | None => false
  | Some EmptyString => false
  | Some (String _ _) => true
  end.

(** An optional string interpolated by an f-string. *)
Definition format (s : option string) : string :=
  match s with
  | Some a => a
  | None => "None"
  end.

(** [ord('q')] *)
Definition ord_q : Z := 113.

End Py.
Import Py.

Notation "x <-! o ;; k" := (obind o (fun x => k))
  (at level 61, o at next level, right associativity).

(** ** Configuration (lines 13-18) *)

Definition GREEN_LOWER : Z * Z * Z := (20, 60, 60).
Definition GREEN_UPPER : Z * Z * Z := (80, 255, 255).
Definition FRAME_WIDTH : Z := 1200.
Definition LATERAL_THRESHOLD : Z := 100.
Definition MIN_RADIUS : Z := 10.
Definition FRAME_TITLE : string := "Ball Tracking".

(** ** What OpenCV reports about a contour *)

(** The entries of [cv2.moments(c)] that the program reads. *)
Record Moments : Type := mkMoments {
  m00 : float;
  m10 : float;
  m01 : float
}.

(** One element of [cnts], seen through [cv2.contourArea],
    [cv2.minEnclosingCircle] and [cv2.moments]. *)
Record Contour : Type := mkContour {
  contourArea : float;
  minEnclosingCircle : (float * float) * float;
  moments : Moments
}.

(** [max(c0 :: rest, key=key)]: Python keeps the first element whose key is
    not exceeded, replacing the candidate only on a strictly greater key. *)
Fixpoint max_key {A} (key : A -> float) (best : A) (rest : list A) : A :=
  match rest with
  | [] => best
  | c :: rest' =>
      if Qgtb (key c) (key best) then max_key key c rest'
      else max_key key best rest'
  end.

(** ** Frames, drawing and the outside world *)

Definition Color : Type := Z * Z * Z.

(** The drawing calls made on a frame: [cv2.circle], [cv2.putText] (font
    [FONT_HERSHEY_SIMPLEX]) and [cv2.line]. *)
Inductive Shape : Type :=
| Circle (center : Z * Z) (radius : Z) (color : Color) (thickness : Z)
| Text (text : string) (org : Z * Z) (scale : float) (color : Color)
       (thickness : Z)
| Line (p1 p2 : Z * Z) (color : Color) (thickness : Z).

(** A frame as [process_frame] sees it once line 56 has resized it to
    [FRAME_WIDTH] columns: its number of rows, what lines 56-75 make of its
    pixels (the contour list, or an exception of the library), and what has
    been drawn on it. *)
Record Frame : Type := mkFrame {
  height : Z;
  contours : outcome (list Contour);
  drawn : list Shape
}.

Definition draw (frame : Frame) (shapes : list Shape) : Frame :=
  mkFrame (height frame) (contours frame) (drawn frame ++ shapes).

Inductive Source : Type :=
| Device (index : Z)
| Url (url : string).

Inductive Level : Type := INFO | ERROR.

(** Calls that reach outside the process.  [logging.debug] records are
    dropped by the level set on line 22 and leave no event. *)
Inductive event : Type :=
| Log (level : Level) (msg : string)
| VideoCapture (src : Source)
| Read
| Imshow (title : string) (frame : Frame)
| WaitKey (delay : Z)
| Release
| DestroyAllWindows.

(** Everything done so far, oldest first. *)
Definition World : Type := list event.

(** What one turn of the loop meets: the result of [cap.read()] ([None] for
    [ret = False]), of [cv2.imshow] and of [cv2.waitKey]. *)
Record Iteration : Type := mkIteration {
  read : outcome (option Frame);
  imshow : outcome unit;
  waitKey : outcome Z
}.

(** The environment of a run: which sources open, and what the successive
    turns of the loop meet, for as long as the environment is described. *)
Record Env : Type := mkEnv {
  isOpened : Source -> bool;
  feed : list Iteration
}.

(** Command-line arguments as [argparse] hands them over. *)
Record Args : Type := mkArgs {
  mode : string;
  ip : option string
}.

(** ** Effectful code: a world-passing monad with exceptions

    The world survives a raised exception, which is what [finally] needs. *)

Definition M (A : Type) : Type := World -> outcome A * World.

Definition ret {A} (a : A) : M A := fun w => (Ret a, w).

Definition bind {A B} (m : M A) (k : A -> M B) : M B :=
  fun w =>
    match m w with
    | (Ret a, w') => k a w'
    | (Raise e, w') => (Raise e, w')
    end.

Definition emit (e : event) : M unit := fun w => (Ret tt, w ++ [e]).

Definition lift {A} (o : outcome A) : M A := fun w => (o, w).

Definition log (level : Level) (msg : string) : M unit := emit (Log level msg).

Notation "x <- m ;; k" := (bind m (fun x => k))
  (at level 61, m at next level, right associativity).
Notation "m ;; k" := (bind m (fun _ => k))
  (at level 61, right associativity).

(** ** Classification *)

Inductive Direction : Type := NotDetected | Left | Right | Center.

(** The text shown and logged for a direction (lines 79, 98, 100, 102). *)
Definition direction_text (d : Direction) : string :=
  match d with
  | NotDetected => "Not Detected"
  | Left => "Left"
  | Right => "Right"
  | Center => "Center"
  end.

(** Lines 96-102, with the two globals read there made explicit. *)
Definition classify (center_x frame_width threshold : Z) : Direction :=
  let frame_center := frame_width / 2 in
  if center_x <? frame_center - threshold then Left
  else if center_x >? frame_center + threshold then Right
  else Center.

(** The middle column of the resized frame (line 96). *)
Definition mid : Z := FRAME_WIDTH / 2.

(** ** Detection *)

(** What lines 81-108 find in the contour list: the [else] of line 107, the
    [else] of line 105, or a ball with its centroid and enclosing circle. *)
Inductive Found : Type :=
| NoContours
| TooSmall
| Ball (center : Z * Z) (circle : (float * float) * float).

(** The spec's DetectionResult: centroid and enclosing radius, if any. *)
Definition detection_result (f : Found) : option ((Z * Z) * float) :=
  match f with
  | Ball center (_, radius) => Some (center, radius)
  | _ => None
  end.

Section Tracker.

(** IEEE division of two finite doubles by a non-zero divisor.  How the
    quotient is rounded is left open: nothing below depends on it. *)
Variable fdiv : float -> float -> float.

(** Python's [a / b] on floats. *)
Definition truediv (a b : float) : outcome float :=
  if Qeq_bool b 0 then Raise ZeroDivisionError else Ret (fdiv a b).

(** Lines 81-88 (and the two [else] branches): pick the contour of
    greatest area, test it, compute the centroid. *)
Definition detect (cnts : list Contour) : outcome Found :=
  match cnts with
  | [] => Ret NoContours
  | c0 :: rest =>
      let c := max_key contourArea c0 rest in
      let '((x, y), radius) := minEnclosingCircle c in
      let M := moments c in
      if Qgtb (m00 M) 0 && Qgtb radius (inject_Z MIN_RADIUS) then
        cx <-! truediv (m10 M) (m00 M) ;;
        cy <-! truediv (m01 M) (m00 M) ;;
        Ret (Ball (int cx, int cy) ((x, y), radius))
      else Ret TooSmall
  end.

(** The contour that line 83 selects, when there is one. *)
Definition largest (cnts : list Contour) : option Contour :=
  match cnts with
  | [] => None
  | c0 :: rest => Some (max_key contourArea c0 rest)
  end.

Definition radius_of (c : Contour) : float := snd (minEnclosingCircle c).

(** The test of line 87. *)
Definition qualifies (c : Contour) : bool :=
  Qgtb (m00 (moments c)) 0 && Qgtb (radius_of c) (inject_Z MIN_RADIUS).

(** The value of [direction] when line 110 is reached. *)
Definition direction_of (f : Found) : Direction :=
  match f with
  | Ball center _ => classify (fst center) FRAME_WIDTH LATERAL_THRESHOLD
  | _ => NotDetected
  end.

(** ** Rendering *)

(** Lines 126-142.  The frame has [FRAME_WIDTH] columns after line 56. *)
Definition draw_guidelines (frame : Frame) : Frame :=
  let height := height frame in
  let width := FRAME_WIDTH in
  let center_x := width / 2 in
  draw frame
    [ Line (center_x, 0) (center_x, height) (255, 0, 0) 2;
      Line (center_x - LATERAL_THRESHOLD, 0)
           (center_x - LATERAL_THRESHOLD, height) (0, 255, 0) 1;
      Line (center_x + LATERAL_THRESHOLD, 0)
           (center_x + LATERAL_THRESHOLD, height) (0, 255, 0) 1 ].

(** Lines 89-93 and 104-108: what is drawn and logged for a finding. *)
Definition mark (found : Found) : M (list Shape) :=
  match found with
  | Ball center ((x, y), radius) =>
      log INFO ("Ball direction: "
                ++ direction_text (direction_of found))%string ;;
      ret [ Circle (int x, int y) (int radius) (0, 255, 255) 2;
            Circle center 5 (0, 0, 255) (-1) ]
  | TooSmall => ret []
  | NoContours => log INFO "No ball detected in frame" ;; ret []
  end.

(** Lines 111-119. *)
Definition label (direction : Direction) : Shape :=
  Text ("Direction: " ++ direction_text direction)%string (10, 30) (7 # 10)
       (match direction with
        | NotDetected => (0, 0, 255)
        | _ => (0, 255, 0)
        end)
       2.

(** Lines 51-124. *)
Definition process_frame (frame : Frame) : M Frame :=
  cnts <- lift (contours frame) ;;
  found <- lift (detect cnts) ;;
  shapes <- mark found ;;
  let frame := draw frame (shapes ++ [label (direction_of found)]) in
  ret (draw_guidelines frame).

(** ** Frame source (lines 31-49) *)

Section Run.

Variable env : Env.

(** Lines 45-49. *)
Definition opened (cap : Source) : M (option Source) :=
  if negb (isOpened env cap) then
    log ERROR "Failed to open video capture" ;;
    ret None
  else
    log INFO "Video capture initialized successfully" ;;
    ret (Some cap).

Definition initialize_video_capture (mode : string)
    (ip_address : option string) : M (option Source) :=
  if (mode =? "web")%string then
    log INFO "Initializing webcam video capture" ;;
    emit (VideoCapture (Device 0)) ;;
    opened (Device 0)
  else if (mode =? "mobile")%string && truthy ip_address then
    let address := format ip_address in
    log INFO ("Initializing mobile camera video capture from URL: "
              ++ address)%string ;;
    emit (VideoCapture (Url ("http://" ++ address ++ ":8080/video")%string)) ;;
    opened (Url ("http://" ++ address ++ ":8080/video")%string)
  else
    log ERROR "Invalid mode or missing IP address for mobile mode" ;;
    ret None.

(** ** Loop driver (lines 144-174) *)

Inductive ctl : Type := Continue | Break.

(** One turn of [while True] (lines 154-167). *)
Definition body (it : Iteration) : M ctl :=
  r <- (emit Read ;; lift (read it)) ;;
  match r with
  | None =>
      log ERROR "Failed to read frame from video capture" ;;
      ret Break
  | Some frame =>
      processed_frame <- process_frame frame ;;
      emit (Imshow FRAME_TITLE processed_frame) ;;
      lift (imshow it) ;;
      key <- (emit (WaitKey 1) ;; lift (waitKey it)) ;;
      if Z.land key 255 =? ord_q then
        log INFO "Exit command received - terminating" ;;
        ret Break
      else ret Continue
  end.

(** [while True]: runs until a turn breaks or raises.  When the described
    turns are used up the loop is still running: no result. *)
Fixpoint loop (turns : list Iteration) (w : World)
  : option (outcome unit * World) :=
  match turns with
  | [] => None
  | it :: turns' =>
      match body it w with
      | (Ret Continue, w') => loop turns' w'
      | (Ret Break, w') => Some (Ret tt, w')
      | (Raise e, w') => Some (Raise e, w')
      end
  end.

(** [except Exception as e] (lines 168-169). *)
Definition except_Exception (r : outcome unit) : M unit :=
  match r with
  | Ret tt => ret tt
  | Raise e =>
      if is_Exception e then
        log ERROR ("An error occurred: " ++ str e)%string
      else lift (Raise e)
  end.

(** The [finally] block (lines 172-174). *)
Definition release_resources : M unit :=
  emit Release ;;
  emit DestroyAllWindows ;;
  log INFO "Resources released and program terminated".

(** Lines 144-174.  [None]: the loop outlives the described turns. *)
Definition main (args : Args) (w : World) : option (outcome unit * World) :=
  match initialize_video_capture (mode args) (ip args) w with
  | (Raise e, w1) => Some (Raise e, w1)
  | (Ret None, w1) => Some (Ret tt, w1)
  | (Ret (Some cap), w1) =>
      match loop (feed env) w1 with
      | None => None
      | Some (r, w2) =>
          let '(r', w3) := except_Exception r w2 in
          let '(_, w4) := release_resources w3 in
          Some (r', w4)
      end
  end.

End Run.

End Tracker.

(** ** Vocabulary for runs of the loop *)

(** How a turn can end the loop: the operator's key, a failed read, or an
    exception raised by one of the calls of the turn. *)
Inductive Exit : Type :=
| StopKey
| ReadFailure
| Failure (e : exn).

(** Whether, and how, a turn ends the loop; [None] when the loop goes on. *)
Definition ending (it : Iteration) : option Exit :=
  match read it with
  | Raise e => Some (Failure e)
  | Ret None => Some ReadFailure
  | Ret (Some frame) =>
      match contours frame with
      | Raise e => Some (Failure e)
      | Ret _ =>
          match imshow it with
          | Raise e => Some (Failure e)
          | Ret _ =>
              match waitKey it with
              | Raise e => Some (Failure e)
              | Ret key =>
                  if Z.land key 255 =? ord_q then Some StopKey else None
              end
          end
      end
  end.

(** What leaves [while True] for each way of ending it. *)
Definition leave (cause : Exit) : outcome unit :=
  match cause with
  | Failure e => Raise e
  | _ => Ret tt
  end.

(** What [main] hands back for each way of leaving the loop: an
    [Exception] is handled on line 168, anything else propagates. *)
Definition verdict (cause : Exit) : outcome unit :=
  match cause with
  | Failure e => if is_Exception e then Ret tt else Raise e
  | _ => Ret tt
  end.

Definition is_Read (e : event) : bool :=
  match e with
  | Read => true
  | _ => false
  end.

(** Events a turn of the loop can leave: neither the opening of a source nor
    the release of anything. *)
Definition in_loop (e : event) : bool :=
  match e with
  | Read | Log _ _ | Imshow _ _ | WaitKey _ => true
  | VideoCapture _ | Release | DestroyAllWindows => false
  end.

(** The trace of the [finally] block. *)
Definition cleanup : list event :=
  [ Release; DestroyAllWindows;
    Log INFO "Resources released and program terminated" ].

(** A computation whose result and new events do not depend on what
    happened before. *)
Definition oblivious {A} (m : M A) : Prop :=
  forall w, m w = (fst (m []), w ++ snd (m [])).

(** ** Vocabulary for the further properties *)


(** Directions from left to right. *)
Definition rank (d : Direction) : Z :=
  match d with
  | Left => 0
  | Center => 1
  | Right => 2
  | NotDetected => 1
  end.

Definition is_Imshow (e : event) : bool :=
  match e with
  | Imshow _ _ => true
  | _ => false
  end.

Definition is_WaitKey (e : event) : bool :=
  match e with
  | WaitKey _ => true
  | _ => false
  end.

(** Records logged at level ERROR. *)
Definition is_error (e : event) : bool :=
  match e with
  | Log ERROR _ => true
  | _ => false
  end.

(** Events of [initialize_video_capture]: log records and the creation of
    the capture. *)
Definition in_startup (e : event) : bool :=
  match e with
  | Log _ _ | VideoCapture _ => true
  | _ => false
  end.

(** What lines 92-93 draw for a finding. *)
Definition marks (found : Found) : list Shape :=
  match found with
  | Ball center ((x, y), radius) =>
      [ Circle (int x, int y) (int radius) (0, 255, 255) 2;
        Circle center 5 (0, 0, 255) (-1) ]
  | _ => []
  end.

(** The three lines of [draw_guidelines] for a frame [rows] high, given the
    columns of the middle and of the two thresholds. *)
Definition guides (rows c l r : Z) : list Shape :=
  [ Line (c, 0) (c, rows) (255, 0, 0) 2;
    Line (l, 0) (l, rows) (0, 255, 0) 1;
    Line (r, 0) (r, rows) (0, 255, 0) 1 ].

(** ** Sample data *)

Module Sample.

(** Exact quotient, standing for the float division. *)
Definition fdiv : float -> float -> float := Qdiv.

(** A contour of area [a], enclosing radius [r] and centroid [(cx, cy)]. *)
Definition blob (a : Z) (r : float) (cx cy : Z) : Contour :=
  mkContour (inject_Z a)
            ((inject_Z cx, inject_Z cy), r)
            (mkMoments (inject_Z a) (inject_Z (a * cx)) (inject_Z (a * cy))).

(** A ball left of the dead zone. *)
Definition ball : Contour := blob 2800 (inject_Z 30) 450 200.

(** A blob whose enclosing radius is exactly [MIN_RADIUS]. *)
Definition rim : Contour := blob 300 (inject_Z 10) 600 300.

(** A thin streak: long, with no enclosed area. *)
Definition streak : Contour := blob 0 (inject_Z 50) 600 300.

(** A frame 675 rows high in which the vision pipeline finds [cnts]. *)
Definition frame_with (cnts : list Contour) : Frame :=
  mkFrame 675 (Ret cnts) [].

(** A turn that shows [cnts] and on which [waitKey] returns [key]. *)
Definition turn (cnts : list Contour) (key : Z) : Iteration :=
  mkIteration (Ret (Some (frame_with cnts))) (Ret tt) (Ret key).

(** A turn on which the read fails. *)
Definition end_of_stream : Iteration :=
  mkIteration (Ret None) (Ret tt) (Ret (-1)).

(** A turn on which the vision library rejects the frame. *)
Definition broken : Iteration :=
  mkIteration (Ret (Some (mkFrame 675 (Raise (Error "bad frame")) [])))
              (Ret tt) (Ret (-1)).

(** An environment in which every source opens and the loop meets
    [turns]. *)
Definition stream (turns : list Iteration) : Env :=
  mkEnv (fun _ => true) turns.

(** An environment in which no source opens. *)
Definition unplugged (turns : list Iteration) : Env :=
  mkEnv (fun _ => false) turns.

Definition web : Args := mkArgs "web" None.

(** The world once the webcam has been opened. *)
Definition started : World :=
  [ Log INFO "Initializing webcam video capture";
    VideoCapture (Device 0);
    Log INFO "Video capture initialized successfully" ].

Definition mobile_without_ip : Args := mkArgs "mobile" None.

(** A compact patch just under the minimum radius ... *)
Definition patch : Contour := blob 250 (19 # 2) 600 300.

(** ... and a slimmer, longer region of smaller area. *)
Definition strip : Contour := blob 200 (inject_Z 30) 900 100.

End Sample.

(** * Properties *)

Section DetectorFacts.

Variable fdiv : float -> float -> float.

Lemma Qltb_lt (x y : Q) : Qltb x y = true <-> (x < y)%Q.
Proof. unfold Qltb, Qlt. apply Z.ltb_lt. Qed.

Lemma Qltb_ge (x y : Q) : Qltb x y = false <-> (y <= x)%Q.
Proof. unfold Qltb, Qle. apply Z.ltb_ge. Qed.

Lemma truediv_pos (a b : float) :
  Qgtb b 0 = true -> truediv fdiv a b = Ret (fdiv a b).
Proof.
  unfold Qgtb, truediv. intros H. apply Qltb_lt in H.
  destruct (Qeq_bool b 0) eqn:E; [|reflexivity].
  apply Qeq_bool_iff in E. rewrite E in H.
  exfalso. exact (Qlt_irrefl 0 H).
Qed.

Lemma truediv_zero (a : float) : truediv fdiv a 0 = Raise ZeroDivisionError.
Proof. reflexivity. Qed.

(** [detect] on a non-empty list, by the test of line 87. *)
Lemma detect_cons (c0 : Contour) (rest : list Contour) :
  let c := max_key contourArea c0 rest in
  let M := moments c in
  detect fdiv (c0 :: rest) =
  if qualifies c then
    Ret (Ball (int (fdiv (m10 M) (m00 M)), int (fdiv (m01 M) (m00 M)))
              (minEnclosingCircle c))
  else Ret TooSmall.
Proof.
  simpl. unfold qualifies, radius_of.
  destruct (minEnclosingCircle (max_key contourArea c0 rest))
    as [[x y] radius]; simpl.
  destruct (Qgtb (m00 (moments (max_key contourArea c0 rest))) 0) eqn:E;
    simpl; [|reflexivity].
  destruct (Qgtb radius (inject_Z MIN_RADIUS)); [|reflexivity].
  rewrite !truediv_pos by assumption. reflexivity.
Qed.

Lemma qualifies_iff (c : Contour) :
  qualifies c = true <->
  (0 < m00 (moments c))%Q /\ (inject_Z MIN_RADIUS < radius_of c)%Q.
Proof.
  unfold qualifies, Qgtb. rewrite andb_true_iff, !Qltb_lt. reflexivity.
Qed.

Lemma qualifies_false_iff (c : Contour) :
  qualifies c = false <->
  ~ (0 < m00 (moments c))%Q \/ (radius_of c <= inject_Z MIN_RADIUS)%Q.
Proof.
  unfold qualifies, Qgtb. rewrite andb_false_iff, !Qltb_ge. split.
  - intros [H|H]; [left; apply Qle_not_lt; exact H | right; exact H].
  - intros [H|H]; [left; apply Qnot_lt_le; exact H | right; exact H].
Qed.

(** [detect] never raises. *)
Lemma detect_total (cnts : list Contour) :
  exists found, detect fdiv cnts = Ret found.
Proof.
  destruct cnts as [|c0 rest].
  - exists NoContours. reflexivity.
  - rewrite detect_cons. destruct (qualifies _); eauto.
Qed.

Lemma classify_Left (center_x frame_width threshold : Z) :
  classify center_x frame_width threshold = Left <->
  center_x < frame_width / 2 - threshold.
Proof.
  unfold classify.
  destruct (Z.ltb_spec center_x (frame_width / 2 - threshold));
    [tauto|].
  destruct (center_x >? frame_width / 2 + threshold);
    split; try discriminate; lia.
Qed.

Lemma classify_Right (center_x frame_width threshold : Z) :
  0 <= threshold ->
  classify center_x frame_width threshold = Right <->
  center_x > frame_width / 2 + threshold.
Proof.
  intros Ht. unfold classify.
  destruct (Z.ltb_spec center_x (frame_width / 2 - threshold)).
  - split; [discriminate | lia].
  - rewrite Z.gtb_ltb.
    destruct (Z.ltb_spec (frame_width / 2 + threshold) center_x);
      split; try discriminate; try lia; reflexivity.
Qed.

Lemma classify_Center (center_x frame_width threshold : Z) :
  classify center_x frame_width threshold = Center <->
  frame_width / 2 - threshold <= center_x <= frame_width / 2 + threshold.
Proof.
  unfold classify.
  destruct (Z.ltb_spec center_x (frame_width / 2 - threshold)).
  - split; [discriminate | lia].
  - rewrite Z.gtb_ltb.
    destruct (Z.ltb_spec (frame_width / 2 + threshold) center_x);
      split; try discriminate; try lia; reflexivity.
Qed.

End DetectorFacts.

(** ** The contour chosen on line 83 *)

Section Largest.

Context {A : Type} (key : A -> float).

Lemma max_key_In (best : A) (rest : list A) :
  In (max_key key best rest) (best :: rest).
Proof.
  revert best. induction rest as [|c rest IH]; intros best; simpl.
  - now left.
  - destruct (Qgtb (key c) (key best)).
    + right. apply IH.
    + destruct (IH best) as [H|H]; [now left | right; now right].
Qed.

Lemma max_key_best (best : A) (rest : list A) :
  (key best <= key (max_key key best rest))%Q.
Proof.
  revert best. induction rest as [|c rest IH]; intros best; simpl.
  - apply Qle_refl.
  - destruct (Qgtb (key c) (key best)) eqn:E.
    + apply Qle_trans with (key c); [|apply IH].
      apply Qlt_le_weak. apply Qltb_lt. exact E.
    + apply IH.
Qed.

Lemma max_key_ge (best : A) (rest : list A) (c : A) :
  In c (best :: rest) -> (key c <= key (max_key key best rest))%Q.
Proof.
  revert best. induction rest as [|c' rest IH]; intros best.
  - intros [<-|[]]. apply Qle_refl.
  - intros [<-|[<-|H]].
    + apply max_key_best.
    + simpl. destruct (Qgtb (key c') (key best)) eqn:E.
      * apply max_key_best.
      * apply Qle_trans with (key best); [|apply max_key_best].
        apply Qltb_ge. exact E.
    + simpl. destruct (Qgtb (key c') (key best));
        apply IH; now right.
Qed.

End Largest.

Section DetectorClaims.

Variable fdiv : float -> float -> float.

(** C1.  The classifier partitions the horizontal axis around
    [mid = FRAME_WIDTH / 2], which is exactly half the frame width: a
    detected centroid left of [mid - LATERAL_THRESHOLD] gives Left, one
    right of [mid + LATERAL_THRESHOLD] gives Right, every other one, the two
    boundaries included, gives Center; with no detection the direction is
    NotDetected. *)
Theorem classifier_partition (found : Found) :
  FRAME_WIDTH = 2 * mid /\
  match detection_result found with
  | Some ((center_x, _), _) =>
      (direction_of found = Left <-> center_x < mid - LATERAL_THRESHOLD) /\
      (direction_of found = Right <-> center_x > mid + LATERAL_THRESHOLD) /\
      (direction_of found = Center <->
       mid - LATERAL_THRESHOLD <= center_x <= mid + LATERAL_THRESHOLD) /\
      (center_x = mid - LATERAL_THRESHOLD -> direction_of found = Center) /\
      (center_x = mid + LATERAL_THRESHOLD -> direction_of found = Center)
  | None => direction_of found = NotDetected
  end.
Proof.
  split; [reflexivity|].
  destruct found as [| |[center_x center_y] [xy radius]];
    cbn [detection_result direction_of fst]; try reflexivity.
  assert (HC := classify_Center center_x FRAME_WIDTH LATERAL_THRESHOLD).
  fold mid in HC.
  split; [apply classify_Left|].
  split; [apply classify_Right; discriminate|].
  split; [exact HC|].
  split; intros ->; apply HC; unfold LATERAL_THRESHOLD; lia.
Qed.

(** C2.  A detection result always carries an enclosing radius strictly
    above [MIN_RADIUS]; a radius at or below the minimum is never
    returned. *)
Theorem detection_radius_exceeds_minimum
    (cnts : list Contour) (found : Found) (center : Z * Z) (radius : float) :
  detect fdiv cnts = Ret found ->
  detection_result found = Some (center, radius) ->
  (inject_Z MIN_RADIUS < radius)%Q /\ ~ (radius <= inject_Z MIN_RADIUS)%Q.
Proof.
  intros Hd Hr.
  assert (inject_Z MIN_RADIUS < radius)%Q as Hlt.
  { destruct cnts as [|c0 rest].
    - injection Hd as <-. discriminate.
    - rewrite detect_cons in Hd.
      destruct (qualifies (max_key contourArea c0 rest)) eqn:Q.
      + injection Hd as <-. apply qualifies_iff in Q. destruct Q as [_ Q].
        unfold radius_of in Q. simpl in Hr.
        destruct (minEnclosingCircle (max_key contourArea c0 rest))
          as [xy r]. injection Hr as _ <-. exact Q.
      + injection Hd as <-. discriminate. }
  split; [exact Hlt | apply Qlt_not_le; exact Hlt].
Qed.

(** C3 (amended).  The Detector never fails, and it returns no detection
    exactly when there is no contour, or the contour of greatest area has a
    zeroth moment that is not positive or an enclosing radius at or below
    [MIN_RADIUS]; a largest contour with positive zeroth moment and radius
    strictly above the minimum produces a detection with that radius. *)
Theorem no_detection_iff (cnts : list Contour) :
  exists found,
    detect fdiv cnts = Ret found /\
    (detection_result found = None <->
     cnts = [] \/
     exists c, largest cnts = Some c /\
               (~ (0 < m00 (moments c))%Q \/
                (radius_of c <= inject_Z MIN_RADIUS)%Q)) /\
    (forall c, largest cnts = Some c ->
               (0 < m00 (moments c))%Q ->
               (inject_Z MIN_RADIUS < radius_of c)%Q ->
               exists center,
                 detection_result found = Some (center, radius_of c)).
Proof.
  destruct cnts as [|c0 rest].
  - exists NoContours. repeat split.
    + now left.
    + discriminate.
  - rewrite detect_cons. simpl largest.
    set (c := max_key contourArea c0 rest).
    destruct (qualifies c) eqn:Q.
    + eexists. split; [reflexivity|]. unfold radius_of. simpl.
      destruct (minEnclosingCircle c) as [xy r] eqn:E. simpl. split.
      * split; [discriminate|].
        intros [H|[c' [H1 H2]]]; [discriminate|].
        injection H1 as <-. apply qualifies_false_iff in H2.
        congruence.
      * intros c' H1 _ _. injection H1 as <-. rewrite E. simpl. eauto.
    + exists TooSmall. split; [reflexivity|]. split.
      * split; [|reflexivity]. intros _. right. exists c.
        split; [reflexivity|]. apply qualifies_false_iff. exact Q.
      * intros c' H1 H2 H3. injection H1 as <-.
        assert (qualifies c = true) by (apply qualifies_iff; now split).
        congruence.
Qed.

(** C4.  With the configured constants (width 1200, threshold 100, hence
    middle 600) a centroid at column 450 is Left, at 600 Center, at 750
    Right and at the boundary 700 Center. *)
Theorem scenario_configured_constants :
  FRAME_WIDTH = 1200 /\ LATERAL_THRESHOLD = 100 /\ mid = 600 /\
  classify 450 FRAME_WIDTH LATERAL_THRESHOLD = Left /\
  classify 600 FRAME_WIDTH LATERAL_THRESHOLD = Center /\
  classify 750 FRAME_WIDTH LATERAL_THRESHOLD = Right /\
  classify 700 FRAME_WIDTH LATERAL_THRESHOLD = Center /\
  (forall center_y circle,
      direction_of (Ball (450, center_y) circle) = Left /\
      direction_of (Ball (600, center_y) circle) = Center /\
      direction_of (Ball (750, center_y) circle) = Right /\
      direction_of (Ball (700, center_y) circle) = Center).
Proof. repeat split. Qed.

(** C9.  Only the contour of greatest area is put to the test of line 87:
    when it fails, the frame's result is NotDetected, whatever the other
    contours are. *)
Theorem only_largest_is_tested (cnts : list Contour) (c : Contour) :
  largest cnts = Some c ->
  qualifies c = false ->
  In c cnts /\
  (forall c', In c' cnts -> (contourArea c' <= contourArea c)%Q) /\
  detect fdiv cnts = Ret TooSmall /\
  direction_of TooSmall = NotDetected.
Proof.
  destruct cnts as [|c0 rest]; [discriminate|].
  intros H Q. injection H as <-. repeat split.
  - apply max_key_In.
  - intros c'. apply max_key_ge.
  - rewrite detect_cons, Q. reflexivity.
Qed.

(** C10.  Dividing by zero raises, yet the Detector never raises: a
    centroid is computed only from a positive zeroth moment, and a largest
    contour whose zeroth moment is zero gives NotDetected whatever its
    enclosing radius. *)
Theorem centroid_division_guarded (cnts : list Contour) :
  (forall a b, truediv fdiv a b = Raise ZeroDivisionError <-> (b == 0)%Q) /\
  (exists found, detect fdiv cnts = Ret found) /\
  (forall c center circle,
      largest cnts = Some c ->
      detect fdiv cnts = Ret (Ball center circle) ->
      (0 < m00 (moments c))%Q /\
      truediv fdiv (m10 (moments c)) (m00 (moments c))
        = Ret (fdiv (m10 (moments c)) (m00 (moments c))) /\
      truediv fdiv (m01 (moments c)) (m00 (moments c))
        = Ret (fdiv (m01 (moments c)) (m00 (moments c))) /\
      center = (int (fdiv (m10 (moments c)) (m00 (moments c))),
                int (fdiv (m01 (moments c)) (m00 (moments c))))) /\
  (forall c, largest cnts = Some c ->
             (m00 (moments c) == 0)%Q ->
             detect fdiv cnts = Ret TooSmall /\
             direction_of TooSmall = NotDetected).
Proof.
  split; [|split; [apply detect_total|split]].
  - intros a b. unfold truediv.
    destruct (Qeq_bool b 0) eqn:E.
    + apply Qeq_bool_iff in E. tauto.
    + split; [discriminate|]. intros H. apply Qeq_bool_iff in H. congruence.
  - intros c center circle H Hd.
    destruct cnts as [|c0 rest]; [discriminate|]. injection H as <-.
    rewrite detect_cons in Hd.
    destruct (qualifies (max_key contourArea c0 rest)) eqn:Q;
      [|discriminate].
    pose proof Q as Q'. apply qualifies_iff in Q'. destruct Q' as [Hpos _].
    unfold qualifies in Q. apply andb_true_iff in Q. destruct Q as [Q _].
    rewrite !truediv_pos by exact Q.
    injection Hd as <- _. auto.
  - intros c H Hz.
    destruct cnts as [|c0 rest]; [discriminate|]. injection H as <-.
    rewrite detect_cons.
    assert (qualifies (max_key contourArea c0 rest) = false) as ->.
    { apply qualifies_false_iff. left. rewrite Hz. apply Qlt_irrefl. }
    split; reflexivity.
Qed.

End DetectorClaims.

(** ** Computations and their traces *)

Section Traces.

Lemma oblivious_ret {A} (a : A) : oblivious (ret a).
Proof. intros w. unfold ret. simpl. now rewrite app_nil_r. Qed.

Lemma oblivious_lift {A} (o : outcome A) : oblivious (lift o).
Proof. intros w. unfold lift. simpl. now rewrite app_nil_r. Qed.

Lemma oblivious_emit (e : event) : oblivious (emit e).
Proof. intros w. reflexivity. Qed.

Lemma oblivious_log (level : Level) (msg : string) :
  oblivious (log level msg).
Proof. apply oblivious_emit. Qed.

Lemma oblivious_bind {A B} (m : M A) (k : A -> M B) :
  oblivious m -> (forall a, oblivious (k a)) -> oblivious (bind m k).
Proof.
  intros Hm Hk w. unfold bind.
  rewrite (Hm w). destruct (m []) as [[a|e] evs]; simpl.
  - rewrite (Hk a (w ++ evs)), (Hk a evs). simpl.
    now rewrite app_assoc.
  - reflexivity.
Qed.

Lemma in_loop_keeps_resources (evs : list event) :
  Forall (fun e => in_loop e = true) evs ->
  ~ In Release evs /\ ~ In DestroyAllWindows evs.
Proof.
  intros H. rewrite Forall_forall in H.
  split; intros HIn; apply H in HIn; discriminate.
Qed.

End Traces.

Create HintDb oblivious.

#[local] Hint Resolve oblivious_ret oblivious_lift oblivious_emit
  oblivious_log : oblivious.

Ltac oblivious :=
  repeat first
    [ solve [auto with oblivious]
    | apply oblivious_bind; [|intros ?]
    | match goal with
      | |- oblivious (match ?x with _ => _ end) => destruct x
      | |- oblivious (if ?b then _ else _) => destruct b
      end ].

(** ** One frame, one turn *)

Section TurnFacts.

Variable fdiv : float -> float -> float.

Lemma oblivious_mark (found : Found) : oblivious (mark found).
Proof.
  destruct found as [| |center [[x y] radius]]; unfold mark; oblivious.
Qed.

Lemma oblivious_process_frame (frame : Frame) :
  oblivious (process_frame fdiv frame).
Proof.
  pose proof oblivious_mark. unfold process_frame. oblivious.
Qed.

Lemma oblivious_body (it : Iteration) : oblivious (body fdiv it).
Proof.
  pose proof oblivious_process_frame. unfold body. oblivious.
Qed.

(** A frame the library rejects makes [process_frame] raise, untouched
    world; any other frame is returned annotated, with log records only. *)
Lemma process_frame_raises (frame : Frame) (e : exn) :
  contours frame = Raise e ->
  process_frame fdiv frame [] = (Raise e, []).
Proof. intros H. unfold process_frame, bind, lift. now rewrite H. Qed.

Lemma process_frame_returns (frame : Frame) (cnts : list Contour) :
  contours frame = Ret cnts ->
  exists found shapes msgs,
    detect fdiv cnts = Ret found /\
    mark found [] = (Ret shapes, map (Log INFO) msgs) /\
    process_frame fdiv frame [] =
    (Ret (draw_guidelines
            (draw frame (shapes ++ [label (direction_of found)]))),
     map (Log INFO) msgs).
Proof.
  intros H. destruct (detect_total fdiv cnts) as [found Hf].
  assert (exists shapes msgs,
             mark found [] = (Ret shapes, map (Log INFO) msgs))
    as (shapes & msgs & Hm).
  { destruct found as [| |center [[x y] radius]].
    - exists [], ["No ball detected in frame"%string]. reflexivity.
    - exists [], []. reflexivity.
    - eexists _, [_]. reflexivity. }
  exists found, shapes, msgs. repeat split; try assumption.
  unfold process_frame, bind, lift. rewrite H, Hf, Hm. reflexivity.
Qed.

Lemma logs_in_loop (level : Level) (msgs : list string) :
  Forall (fun e => in_loop e = true) (map (Log level) msgs).
Proof. induction msgs; simpl; constructor; auto. Qed.

Lemma logs_not_Read (level : Level) (msgs : list string) :
  filter is_Read (map (Log level) msgs) = [].
Proof. induction msgs; simpl; auto. Qed.

(** What a turn hands back is decided by [ending]. *)
Lemma body_result (it : Iteration) :
  fst (body fdiv it []) =
  match ending it with
  | None => Ret Continue
  | Some (Failure e) => Raise e
  | Some _ => Ret Break
  end.
Proof.
  unfold body, ending, bind, emit, lift. simpl.
  destruct (read it) as [[frame|]|e]; try reflexivity.
  rewrite (oblivious_process_frame frame [Read]).
  destruct (contours frame) as [cnts|e] eqn:Hc.
  - destruct (process_frame_returns frame cnts Hc)
      as (found & shapes & msgs & _ & _ & ->). simpl.
    destruct (imshow it) as [[]|e]; try reflexivity.
    destruct (waitKey it) as [key|e]; try reflexivity.
    unfold log, emit, ret.
    destruct (Z.land key 255 =? ord_q); reflexivity.
  - rewrite (process_frame_raises frame e Hc). reflexivity.
Qed.

(** A turn reads exactly once, first thing, and leaves nothing but reads,
    log records, displays and key polls. *)
Lemma body_events (it : Iteration) :
  exists evs,
    snd (body fdiv it []) = Read :: evs /\
    filter is_Read evs = [] /\
    Forall (fun e => in_loop e = true) evs.
Proof.
  unfold body, bind, emit, lift. simpl.
  destruct (read it) as [[frame|]|e].
  - rewrite (oblivious_process_frame frame [Read]).
    destruct (contours frame) as [cnts|e] eqn:Hc.
    + destruct (process_frame_returns frame cnts Hc)
        as (found & shapes & msgs & _ & _ & ->). simpl.
      assert (forall tl, filter is_Read tl = [] ->
                         Forall (fun e => in_loop e = true) tl ->
                         filter is_Read (map (Log INFO) msgs ++ tl) = [] /\
                         Forall (fun e => in_loop e = true)
                                (map (Log INFO) msgs ++ tl)) as Htl.
      { intros tl H1 H2. split.
        - now rewrite filter_app, logs_not_Read, H1.
        - apply Forall_app. split; [apply logs_in_loop | exact H2]. }
      destruct (imshow it) as [[]|e]; simpl.
      * destruct (waitKey it) as [key|e]; simpl.
        -- unfold log, emit, ret.
           destruct (Z.land key 255 =? ord_q); simpl;
             eexists; (split; [reflexivity|]);
             rewrite <- ?app_assoc; apply Htl; simpl;
             repeat constructor.
        -- eexists; split; [reflexivity|].
           rewrite <- ?app_assoc; apply Htl; simpl; repeat constructor.
      * eexists; split; [reflexivity|].
        rewrite <- ?app_assoc; apply Htl; simpl; repeat constructor.
    + rewrite (process_frame_raises frame e Hc). simpl.
      exists []. repeat constructor.
  - exists [Log ERROR "Failed to read frame from video capture"].
    repeat constructor.
  - exists []. repeat constructor.
Qed.

(** A failed read is reported and nothing else happens in the turn. *)
Lemma body_read_failure (it : Iteration) :
  read it = Ret None ->
  body fdiv it [] =
  (Ret Break, [Read; Log ERROR "Failed to read frame from video capture"]).
Proof. intros H. unfold body, bind, emit, lift. simpl. now rewrite H. Qed.

End TurnFacts.

(** ** Runs of the loop *)

Section RunFacts.

Variable fdiv : float -> float -> float.

Lemma body_continue (it : Iteration) (w : World) :
  ending it = None ->
  exists evs,
    body fdiv it w = (Ret Continue, w ++ Read :: evs) /\
    filter is_Read evs = [] /\
    Forall (fun e => in_loop e = true) evs.
Proof.
  intros H. destruct (body_events fdiv it) as (evs & E & HR & HL).
  exists evs. repeat split; try assumption.
  rewrite (oblivious_body fdiv it w), body_result, H, E. reflexivity.
Qed.

Lemma body_leave (it : Iteration) (cause : Exit) (w : World) :
  ending it = Some cause ->
  exists r evs,
    body fdiv it w = (r, w ++ Read :: evs) /\
    match r with
    | Ret Continue => False
    | Ret Break => leave cause = Ret tt
    | Raise e => leave cause = Raise e
    end /\
    filter is_Read evs = [] /\
    Forall (fun e => in_loop e = true) evs.
Proof.
  intros H. destruct (body_events fdiv it) as (evs & E & HR & HL).
  exists (fst (body fdiv it [])), evs. repeat split; try assumption.
  - rewrite (oblivious_body fdiv it w), E. reflexivity.
  - rewrite body_result, H. destruct cause; reflexivity.
Qed.

(** Turns that do not end the loop are all run, one read each. *)
Lemma loop_continue (before : list Iteration) :
  Forall (fun i => ending i = None) before ->
  forall w, exists evs,
    (forall rest, loop fdiv (before ++ rest) w = loop fdiv rest (w ++ evs)) /\
    List.length (filter is_Read evs) = List.length before /\
    Forall (fun e => in_loop e = true) evs.
Proof.
  induction 1 as [|it before Hit _ IH]; intros w.
  - exists []. rewrite app_nil_r. repeat split; constructor.
  - destruct (body_continue it w Hit) as (evs1 & E1 & R1 & L1).
    destruct (IH (w ++ Read :: evs1)) as (evs2 & E2 & R2 & L2).
    exists ((Read :: evs1) ++ evs2). repeat split.
    + intros rest. simpl. rewrite E1, E2, <- app_assoc. reflexivity.
    + rewrite filter_app, length_app. simpl. rewrite R1, R2. reflexivity.
    + apply Forall_app. split; [constructor; [reflexivity|exact L1]|exact L2].
Qed.

(** The first turn that ends the loop is the last one run. *)
Lemma loop_leave (it : Iteration) (after : list Iteration) (cause : Exit)
    (w : World) :
  ending it = Some cause ->
  exists evs,
    loop fdiv (it :: after) w = Some (leave cause, w ++ Read :: evs) /\
    filter is_Read evs = [] /\
    Forall (fun e => in_loop e = true) evs.
Proof.
  intros H. destruct (body_leave it cause w H) as (r & evs & E & Hr & R & L).
  exists evs. repeat split; try assumption.
  simpl. rewrite E. destruct r as [[]|e]; [tauto| |]; now rewrite Hr.
Qed.

(** Whatever the loop returns, it has only added loop events. *)
Lemma loop_returns (turns : list Iteration) :
  forall w r w',
    loop fdiv turns w = Some (r, w') ->
    exists evs, w' = w ++ evs /\ Forall (fun e => in_loop e = true) evs.
Proof.
  induction turns as [|it turns IH]; intros w r w' H; [discriminate|].
  simpl in H.
  destruct (body_events fdiv it) as (evs & E & _ & L).
  rewrite (oblivious_body fdiv it w), E in H.
  assert (Forall (fun e => in_loop e = true) (Read :: evs)) as L'
    by (constructor; [reflexivity|exact L]).
  destruct (fst (body fdiv it [])) as [[]|e]; simpl in H.
  - destruct (IH _ _ _ H) as (evs' & -> & L2).
    exists ((Read :: evs) ++ evs'). split; [now rewrite app_assoc|].
    apply Forall_app. now split.
  - injection H as _ <-. eauto.
  - injection H as _ <-. eauto.
Qed.

Lemma release_resources_run (w : World) :
  release_resources w = (Ret tt, w ++ cleanup).
Proof.
  unfold release_resources, bind, log, emit, cleanup.
  rewrite <- !app_assoc. reflexivity.
Qed.

Lemma except_Exception_run (r : outcome unit) (w : World) :
  exists r' evs,
    except_Exception r w = (r', w ++ evs) /\
    Forall (fun e => in_loop e = true) evs.
Proof.
  destruct r as [[]|e]; simpl.
  - exists (Ret tt), []. rewrite app_nil_r. split; [reflexivity|constructor].
  - destruct (is_Exception e).
    + eexists _, [_]. split; [reflexivity|]. repeat constructor.
    + exists (Raise e), []. rewrite app_nil_r.
      split; [reflexivity|constructor].
Qed.

Lemma except_Exception_leave (cause : Exit) (w : World) :
  exists evs,
    except_Exception (leave cause) w = (verdict cause, w ++ evs) /\
    Forall (fun e => in_loop e = true) evs /\
    (leave cause = Ret tt -> evs = []).
Proof.
  destruct cause as [| |e]; simpl;
    try (exists []; rewrite app_nil_r; repeat split; constructor).
  destruct (is_Exception e).
  - eexists [_]. split; [reflexivity|]. split; [repeat constructor|].
    discriminate.
  - exists []. rewrite app_nil_r. repeat split; try constructor.
Qed.

Variable env : Env.

(** Once the source is open, [main] is the loop wrapped in its handlers. *)
Lemma main_opened (args : Args) (w w1 : World) (cap : Source) :
  initialize_video_capture env (mode args) (ip args) w
    = (Ret (Some cap), w1) ->
  main fdiv env args w =
  match loop fdiv (feed env) w1 with
  | None => None
  | Some (r, w2) =>
      Some (fst (except_Exception r w2),
            snd (except_Exception r w2) ++ cleanup)
  end.
Proof.
  intros H. unfold main. rewrite H.
  destruct (loop fdiv (feed env) w1) as [[r w2]|]; [|reflexivity].
  destruct (except_Exception r w2) as [r' w3].
  rewrite release_resources_run. reflexivity.
Qed.

Lemma main_leave (args : Args) (w w1 : World) (cap : Source)
    (before after : list Iteration) (it : Iteration) (cause : Exit) :
  initialize_video_capture env (mode args) (ip args) w
    = (Ret (Some cap), w1) ->
  feed env = before ++ it :: after ->
  Forall (fun i => ending i = None) before ->
  ending it = Some cause ->
  exists evs tail handled,
    main fdiv env args w =
    Some (verdict cause,
          w1 ++ (evs ++ Read :: tail ++ handled) ++ cleanup) /\
    List.length (filter is_Read evs) = List.length before /\
    filter is_Read tail = [] /\
    Forall (fun e => in_loop e = true) (evs ++ Read :: tail ++ handled) /\
    (read it = Ret None ->
     tail = [Log ERROR "Failed to read frame from video capture"]) /\
    (leave cause = Ret tt -> handled = []).
Proof.
  intros Hopen Hfeed Hbefore Hend.
  destruct (loop_continue before Hbefore w1) as (evs & E & R & L).
  destruct (loop_leave it after cause (w1 ++ evs) Hend)
    as (tail & E' & R' & L').
  destruct (except_Exception_leave cause ((w1 ++ evs) ++ Read :: tail))
    as (handled & E'' & L'' & N'').
  exists evs, tail, handled. repeat split; try assumption.
  - rewrite (main_opened args w w1 cap Hopen), Hfeed, E, E', E''. simpl.
    rewrite <- !app_assoc. simpl. rewrite <- !app_assoc. reflexivity.
  - apply Forall_app. split; [exact L|].
    constructor; [reflexivity|]. apply Forall_app. now split.
  - intros Hread.
    assert (loop fdiv (it :: after) (w1 ++ evs) =
            Some (Ret tt, (w1 ++ evs) ++
                  [Read; Log ERROR "Failed to read frame from video capture"]))
      as E3.
    { simpl. rewrite (oblivious_body fdiv it (w1 ++ evs)).
      rewrite (body_read_failure fdiv it Hread). reflexivity. }
    rewrite E3 in E'. injection E' as _ E'.
    apply app_inv_head in E'. now injection E' as <-.
Qed.

End RunFacts.

Section RunClaims.

Variable fdiv : float -> float -> float.
Variable env : Env.

(** C5.  Mobile mode without an address: opening the source fails with the
    error reported, and [main] returns at once; no capture is created and
    no frame is read, whatever the environment would have offered. *)
Theorem mobile_mode_without_address (args : Args) (w : World) :
  mode args = "mobile"%string ->
  truthy (ip args) = false ->
  let report :=
    Log ERROR "Invalid mode or missing IP address for mobile mode" in
  initialize_video_capture env (mode args) (ip args) w
    = (Ret None, w ++ [report]) /\
  main fdiv env args w = Some (Ret tt, w ++ [report]).
Proof.
  intros Hmode Hip report.
  assert (initialize_video_capture env (mode args) (ip args) w
          = (Ret None, w ++ [report])) as H.
  { unfold initialize_video_capture. rewrite Hmode, Hip. reflexivity. }
  split; [exact H|]. unfold main. rewrite H. reflexivity.
Qed.

(** C6.  Once the source is open, every way out of the loop, be it the
    stop key, a failed read or an exception raised in a turn, ends with the
    capture released and the windows destroyed: whatever [main] returns has
    the [finally] trace as its last events and no release before it, and
    the first turn that ends the loop does make [main] return. *)
Theorem resources_released_on_every_exit
    (args : Args) (w w1 : World) (cap : Source) :
  initialize_video_capture env (mode args) (ip args) w
    = (Ret (Some cap), w1) ->
  (forall r w',
      main fdiv env args w = Some (r, w') ->
      exists evs,
        w' = w1 ++ evs ++ cleanup /\
        Forall (fun e => in_loop e = true) evs) /\
  (forall before it after cause,
      feed env = before ++ it :: after ->
      Forall (fun i => ending i = None) before ->
      ending it = Some cause ->
      exists evs,
        main fdiv env args w = Some (verdict cause, w1 ++ evs ++ cleanup) /\
        Forall (fun e => in_loop e = true) evs).
Proof.
  intros Hopen. split.
  - intros r w' H. rewrite (main_opened fdiv env args w w1 cap Hopen) in H.
    destruct (loop fdiv (feed env) w1) as [[r0 w2]|] eqn:E; [|discriminate].
    destruct (loop_returns fdiv _ _ _ _ E) as (evs & -> & L).
    destruct (except_Exception_run r0 (w1 ++ evs)) as (r' & evs' & E' & L').
    rewrite E' in H. simpl in H. injection H as _ <-.
    exists (evs ++ evs'). split; [now rewrite <- !app_assoc|].
    apply Forall_app. now split.
  - intros before it after cause Hfeed Hbefore Hend.
    destruct (main_leave fdiv env args w w1 cap before after it cause
                Hopen Hfeed Hbefore Hend)
      as (evs & tail & handled & E & _ & _ & L & _).
    eauto.
Qed.

(** C7.  Classification depends on the centroid column alone: two frames
    whose detected centroids share their column are given the same
    direction, [classify] of that column, whatever happened before either
    call and whatever else the frames contain; the call leaves the world as
    it found it but for the one log record announcing the direction. *)
Theorem classification_is_pure
    (w1 w2 : World) (frame1 frame2 : Frame) (cnts1 cnts2 : list Contour)
    (center_x y1 y2 : Z) (circle1 circle2 : (float * float) * float) :
  contours frame1 = Ret cnts1 ->
  detect fdiv cnts1 = Ret (Ball (center_x, y1) circle1) ->
  contours frame2 = Ret cnts2 ->
  detect fdiv cnts2 = Ret (Ball (center_x, y2) circle2) ->
  let direction := classify center_x FRAME_WIDTH LATERAL_THRESHOLD in
  let record :=
    Log INFO ("Ball direction: " ++ direction_text direction)%string in
  exists f1 f2,
    process_frame fdiv frame1 w1 = (Ret f1, w1 ++ [record]) /\
    process_frame fdiv frame2 w2 = (Ret f2, w2 ++ [record]) /\
    In (label direction) (drawn f1) /\
    In (label direction) (drawn f2).
Proof.
  intros Hc1 Hd1 Hc2 Hd2 direction record.
  assert (forall frame cnts y circle w,
             contours frame = Ret cnts ->
             detect fdiv cnts = Ret (Ball (center_x, y) circle) ->
             exists f,
               process_frame fdiv frame w = (Ret f, w ++ [record]) /\
               In (label direction) (drawn f)) as H.
  { intros frame cnts y [[cx cy] radius] w Hc Hd.
    eexists. unfold process_frame, bind, lift. rewrite Hc, Hd.
    split; [reflexivity|].
    cbn [draw_guidelines draw drawn].
    apply in_or_app; left. apply in_or_app; right.
    apply in_or_app; right. now left. }
  destruct (H frame1 cnts1 y1 circle1 w1 Hc1 Hd1) as (f1 & E1 & I1).
  destruct (H frame2 cnts2 y2 circle2 w2 Hc2 Hd2) as (f2 & E2 & I2).
  exists f1, f2. auto.
Qed.

(** C8.  A failed read ends the run: after the turns that went through,
    the failing turn reads once, reports the failure, and the run goes
    straight to the release of its resources; there are as many reads as
    turns up to and including the failing one, and the turns the
    environment still had to offer play no part. *)
Theorem read_failure_ends_the_run
    (args : Args) (w w1 : World) (cap : Source)
    (before after : list Iteration) (it : Iteration) :
  initialize_video_capture env (mode args) (ip args) w
    = (Ret (Some cap), w1) ->
  feed env = before ++ it :: after ->
  Forall (fun i => ending i = None) before ->
  read it = Ret None ->
  exists evs,
    main fdiv env args w =
    Some (Ret tt,
          w1 ++ evs
             ++ [Read; Log ERROR "Failed to read frame from video capture"]
             ++ cleanup) /\
    List.length (filter is_Read evs) = List.length before /\
    Forall (fun e => in_loop e = true) evs.
Proof.
  intros Hopen Hfeed Hbefore Hread.
  assert (ending it = Some ReadFailure) as Hend
    by (unfold ending; now rewrite Hread).
  destruct (main_leave fdiv env args w w1 cap before after it ReadFailure
              Hopen Hfeed Hbefore Hend)
    as (evs & tail & handled & E & R & _ & L & T & N).
  rewrite (T Hread), (N eq_refl) in E.
  exists evs. repeat split.
  - rewrite E. simpl. rewrite <- !app_assoc. reflexivity.
  - exact R.
  - apply Forall_app in L. tauto.
Qed.

End RunClaims.

(** * The claims on sample data *)

Section Instances.

Import Sample.

Lemma detection_radius_exceeds_minimum_witness :
  (inject_Z MIN_RADIUS < 30)%Q /\ ~ (30 <= inject_Z MIN_RADIUS)%Q.
Proof.
  exact (detection_radius_exceeds_minimum fdiv [ball]
           (Ball (450, 200) ((450, 200), 30)%Q) (450, 200) 30%Q
           eq_refl eq_refl).
Defined.

(** C3, as stated, fails on the code: with [rim] alone in the frame a
    region exists and its radius, exactly the minimum, is not below it, and
    with [streak] alone the radius is five times the minimum; in both
    frames nothing is detected. *)
Lemma no_detection_iff_below_minimum_fails :
  ~ (forall found,
        detect fdiv [rim] = Ret found ->
        (detection_result found = None <->
         [rim] = [] \/
         exists c, largest [rim] = Some c /\
                   (radius_of c < inject_Z MIN_RADIUS)%Q)) /\
  ~ (forall found,
        detect fdiv [streak] = Ret found ->
        (detection_result found = None <->
         [streak] = [] \/
         exists c, largest [streak] = Some c /\
                   (radius_of c < inject_Z MIN_RADIUS)%Q)).
Proof.
  split; intros H;
    destruct (proj1 (H TooSmall eq_refl) eq_refl) as [E|(c & E & L)];
    try discriminate;
    injection E as <-; vm_compute in L; discriminate.
Qed.

Lemma only_largest_is_tested_witness :
  qualifies strip = true /\
  (contourArea strip < contourArea patch)%Q /\
  In patch [strip; patch] /\
  (forall c', In c' [strip; patch] ->
              (contourArea c' <= contourArea patch)%Q) /\
  detect fdiv [strip; patch] = Ret TooSmall /\
  direction_of TooSmall = NotDetected.
Proof.
  split; [reflexivity|]. split; [reflexivity|].
  exact (only_largest_is_tested fdiv [strip; patch] patch
           eq_refl eq_refl).
Defined.

Lemma mobile_mode_without_address_witness :
  main fdiv (stream [turn [ball] 113]) mobile_without_ip []
  = Some (Ret tt,
          [Log ERROR "Invalid mode or missing IP address for mobile mode"]).
Proof.
  exact (proj2 (mobile_mode_without_address fdiv
                  (stream [turn [ball] 113]) mobile_without_ip []
                  eq_refl eq_refl)).
Defined.

Lemma resources_released_on_every_exit_witness :
  exists evs,
    main fdiv (stream [turn [ball] (-1); broken; turn [ball] 113]) web []
    = Some (Ret tt,
            [ Log INFO "Initializing webcam video capture";
              VideoCapture (Device 0);
              Log INFO "Video capture initialized successfully" ]
            ++ evs ++ cleanup) /\
    Forall (fun e => in_loop e = true) evs.
Proof.
  apply (proj2 (resources_released_on_every_exit fdiv
                  (stream [turn [ball] (-1); broken; turn [ball] 113])
                  web []
                  [ Log INFO "Initializing webcam video capture";
                    VideoCapture (Device 0);
                    Log INFO "Video capture initialized successfully" ]
                  (Device 0) eq_refl)
               [turn [ball] (-1)] broken [turn [ball] 113]
               (Failure (Error "bad frame"))).
  - reflexivity.
  - repeat constructor.
  - reflexivity.
Defined.

Lemma classification_is_pure_witness :
  exists f1 f2,
    process_frame fdiv (frame_with [ball]) []
    = (Ret f1, [] ++ [Log INFO "Ball direction: Left"]) /\
    process_frame fdiv (frame_with [patch; blob 900 (inject_Z 20) 450 80])
                  [Read; Read]
    = (Ret f2, [Read; Read] ++ [Log INFO "Ball direction: Left"]) /\
    In (label Left) (drawn f1) /\
    In (label Left) (drawn f2).
Proof.
  exact (classification_is_pure fdiv [] [Read; Read]
           (frame_with [ball])
           (frame_with [patch; blob 900 (inject_Z 20) 450 80])
           [ball] [patch; blob 900 (inject_Z 20) 450 80]
           450 200 80 ((450, 200), 30)%Q ((450, 80), 20)%Q
           eq_refl eq_refl eq_refl eq_refl).
Defined.

Lemma read_failure_ends_the_run_witness :
  exists evs,
    main fdiv (stream [turn [] (-1); end_of_stream; turn [ball] 113]) web []
    = Some (Ret tt,
            [ Log INFO "Initializing webcam video capture";
              VideoCapture (Device 0);
              Log INFO "Video capture initialized successfully" ]
            ++ evs
            ++ [Read; Log ERROR "Failed to read frame from video capture"]
            ++ cleanup) /\
    List.length (filter is_Read evs) = 1%nat /\
    Forall (fun e => in_loop e = true) evs.
Proof.
  apply (read_failure_ends_the_run fdiv
           (stream [turn [] (-1); end_of_stream; turn [ball] 113])
           web []
           [ Log INFO "Initializing webcam video capture";
             VideoCapture (Device 0);
             Log INFO "Video capture initialized successfully" ]
           (Device 0)
           [turn [] (-1)] [turn [ball] 113] end_of_stream).
  - reflexivity.
  - reflexivity.
  - repeat constructor.
  - reflexivity.
Defined.

End Instances.

(** * Further properties of the code *)

(** ** The choice of the largest contour and what is made of it *)

Section Selection.

Context {A : Type} (key : A -> float).

(** X1.  [max] with a key returns the first of the elements of greatest
    key: every element before the one returned has a strictly smaller key,
    every element after it a key that is not greater. *)
Theorem max_key_first_maximal (best : A) (rest : list A) :
  exists before after,
    best :: rest = before ++ max_key key best rest :: after /\
    Forall (fun a => (key a < key (max_key key best rest))%Q) before /\
    Forall (fun a => (key a <= key (max_key key best rest))%Q) after.
Proof.
  revert best. induction rest as [|c rest IH]; intros best.
  - exists [], []. repeat split; constructor.
  - simpl. destruct (Qgtb (key c) (key best)) eqn:E.
    + destruct (IH c) as (before & after & Hs & Hb & Ha).
      exists (best :: before), after. repeat split.
      * simpl. now rewrite <- Hs.
      * constructor; [|exact Hb].
        apply Qlt_le_trans with (key c); [|apply max_key_best].
        apply Qltb_lt. exact E.
      * exact Ha.
    + apply Qltb_ge in E.
      destruct (IH best) as (before & after & Hs & Hb & Ha).
      destruct before as [|b before].
      * simpl in Hs. injection Hs as Hm Hr.
        exists [], (c :: after). repeat split.
        -- simpl. now rewrite <- Hm, <- Hr.
        -- constructor.
        -- constructor; [|exact Ha]. now rewrite <- Hm.
      * simpl in Hs. injection Hs as <- Hr.
        exists (best :: c :: before), after.
        inversion Hb as [|? ? Hlt Hb']; subst. repeat split.
        -- simpl. now rewrite <- Hr.
        -- constructor; [exact Hlt|]. constructor; [|exact Hb'].
           apply Qle_lt_trans with (key best); assumption.
        -- exact Ha.
Qed.

End Selection.

Section DetectionFacts.

Variable fdiv : float -> float -> float.

Lemma detect_Ball (cnts : list Contour) (center : Z * Z)
    (circle : (float * float) * float) :
  detect fdiv cnts = Ret (Ball center circle) ->
  exists c,
    largest cnts = Some c /\ qualifies c = true /\
    circle = minEnclosingCircle c.
Proof.
  destruct cnts as [|c0 rest]; [discriminate|].
  rewrite detect_cons. simpl largest.
  destruct (qualifies (max_key contourArea c0 rest)) eqn:Q; [|discriminate].
  intros H. injection H as _ <-. eauto.
Qed.

Lemma int_lower_bound (n : Z) (x : float) :
  (inject_Z n < x)%Q -> n <= int x.
Proof.
  unfold Qlt, int. simpl. intros H.
  apply Z.quot_le_lower_bound; [reflexivity|]. lia.
Qed.

(** X2.  Contours other than the one of greatest area never matter: the
    result for a frame is the result for that contour alone. *)
Theorem detect_only_largest (c0 : Contour) (rest : list Contour) :
  detect fdiv (c0 :: rest) = detect fdiv [max_key contourArea c0 rest].
Proof. now rewrite !detect_cons. Qed.

(** X3.  The enclosing circle drawn around a detected ball is never smaller
    than [MIN_RADIUS] pixels, truncation of the radius included. *)
Theorem drawn_circle_at_least_minimum
    (frame : Frame) (cnts : list Contour) (center : Z * Z)
    (x y radius : float) (w : World) :
  contours frame = Ret cnts ->
  detect fdiv cnts = Ret (Ball center ((x, y), radius)) ->
  exists f w',
    process_frame fdiv frame w = (Ret f, w') /\
    In (Circle (int x, int y) (int radius) (0, 255, 255) 2) (drawn f) /\
    MIN_RADIUS <= int radius.
Proof.
  intros Hc Hd. eexists _, _.
  split; [unfold process_frame, bind, lift; rewrite Hc, Hd; reflexivity|].
  split.
  - cbn [draw_guidelines draw drawn].
    apply in_or_app; left. apply in_or_app; right.
    apply in_or_app; left. now left.
  - destruct (detect_Ball _ _ _ Hd) as (c & _ & Q & E).
    apply qualifies_iff in Q. destruct Q as [_ Q].
    unfold radius_of in Q. rewrite <- E in Q.
    apply int_lower_bound. exact Q.
Qed.


(** X5.  With a threshold that is not negative the direction follows the
    column: a centroid further to the right is never reported further to
    the left. *)
Theorem classify_monotone (x1 x2 frame_width threshold : Z) :
  0 <= threshold ->
  x1 <= x2 ->
  rank (classify x1 frame_width threshold)
  <= rank (classify x2 frame_width threshold).
Proof.
  intros Ht Hx. unfold classify. cbv zeta. rewrite !Z.gtb_ltb.
  destruct (Z.ltb_spec x1 (frame_width / 2 - threshold));
    destruct (Z.ltb_spec x2 (frame_width / 2 - threshold));
    destruct (Z.ltb_spec (frame_width / 2 + threshold) x1);
    destruct (Z.ltb_spec (frame_width / 2 + threshold) x2);
    simpl; lia.
Qed.


End DetectionFacts.

(** ** What a frame and a turn leave behind *)

Section FrameFacts.

Variable fdiv : float -> float -> float.

Lemma mark_run (found : Found) :
  exists msgs,
    mark found [] = (Ret (marks found), map (Log INFO) msgs) /\
    (msgs = [] <-> found = TooSmall) /\
    (List.length msgs <= 1)%nat.
Proof.
  destruct found as [| |center [[x y] radius]].
  - exists ["No ball detected in frame"%string].
    repeat split; try discriminate. simpl. lia.
  - exists []. repeat split. simpl. lia.
  - eexists [_]. repeat split; try discriminate. simpl. lia.
Qed.

Lemma process_frame_run (frame : Frame) (cnts : list Contour)
    (found : Found) (w : World) :
  contours frame = Ret cnts ->
  detect fdiv cnts = Ret found ->
  exists msgs,
    process_frame fdiv frame w =
    (Ret (draw_guidelines
            (draw frame (marks found ++ [label (direction_of found)]))),
     w ++ map (Log INFO) msgs) /\
    (msgs = [] <-> found = TooSmall) /\
    (List.length msgs <= 1)%nat.
Proof.
  intros Hc Hd. destruct (mark_run found) as (msgs & Hm & Hs & Hl).
  exists msgs. repeat split; try apply Hs; try exact Hl.
  rewrite (oblivious_process_frame fdiv frame w).
  unfold process_frame, bind, lift. rewrite Hc, Hd, Hm. reflexivity.
Qed.

Lemma filter_logs (P : event -> bool) (level : Level) (msgs : list string) :
  (forall msg, P (Log level msg) = false) ->
  filter P (map (Log level) msgs) = [].
Proof.
  intros H. induction msgs as [|msg msgs IH]; simpl; [reflexivity|].
  now rewrite H.
Qed.

(** The events of a turn, by the way the turn ends. *)
Lemma body_trace (it : Iteration) :
  match ending it with
  | None =>
      exists msgs f,
        snd (body fdiv it []) =
        Read :: map (Log INFO) msgs ++ [Imshow FRAME_TITLE f; WaitKey 1]
  | Some StopKey =>
      exists msgs f,
        snd (body fdiv it []) =
        Read :: map (Log INFO) msgs
             ++ [Imshow FRAME_TITLE f; WaitKey 1;
                 Log INFO "Exit command received - terminating"]
  | Some ReadFailure =>
      snd (body fdiv it []) =
      [Read; Log ERROR "Failed to read frame from video capture"]
  | Some (Failure e) =>
      exists msgs tail,
        snd (body fdiv it []) = Read :: map (Log INFO) msgs ++ tail /\
        filter is_error tail = []
  end.
Proof.
  unfold body, ending, bind, emit, lift. simpl.
  destruct (read it) as [[frame|]|e]; try reflexivity.
  - rewrite (oblivious_process_frame fdiv frame [Read]).
    destruct (contours frame) as [cnts|e] eqn:Hc.
    + destruct (process_frame_returns fdiv frame cnts Hc)
        as (found & shapes & msgs & _ & _ & ->). simpl.
      destruct (imshow it) as [[]|e]; simpl.
      * destruct (waitKey it) as [key|e]; simpl.
        -- unfold log, emit, ret.
           destruct (Z.land key 255 =? ord_q); simpl;
             exists msgs; eexists; rewrite <- !app_assoc; reflexivity.
        -- exists msgs. eexists. rewrite <- !app_assoc.
           split; reflexivity.
      * exists msgs. eexists. split; reflexivity.
    + rewrite (process_frame_raises fdiv frame e Hc). simpl.
      exists [], []. split; reflexivity.
  - exists [], []. split; reflexivity.
Qed.

Lemma body_continue_counts (it : Iteration) :
  ending it = None ->
  List.length (filter is_Read (snd (body fdiv it []))) = 1%nat /\
  List.length (filter is_Imshow (snd (body fdiv it []))) = 1%nat /\
  List.length (filter is_WaitKey (snd (body fdiv it []))) = 1%nat /\
  filter is_error (snd (body fdiv it [])) = [].
Proof.
  intros H. pose proof (body_trace it) as T. rewrite H in T.
  destruct T as (msgs & f & ->). simpl.
  rewrite !filter_app, !filter_logs by reflexivity. repeat split.
Qed.

(** X7.  [process_frame] fails only when the vision library does, and then
    with the library's exception and nothing logged; on any other frame it
    returns the same frame annotated and adds at most one record, at level
    INFO, to the log: none exactly when the largest contour was rejected. *)
Theorem process_frame_fails_only_with_library (frame : Frame) (w : World) :
  match contours frame with
  | Raise e => process_frame fdiv frame w = (Raise e, w)
  | Ret cnts =>
      exists found f msgs,
        detect fdiv cnts = Ret found /\
        process_frame fdiv frame w = (Ret f, w ++ map (Log INFO) msgs) /\
        height f = height frame /\
        contours f = contours frame /\
        (msgs = [] <-> found = TooSmall) /\
        (List.length msgs <= 1)%nat
  end.
Proof.
  destruct (contours frame) as [cnts|e] eqn:Hc.
  - destruct (detect_total fdiv cnts) as [found Hd].
    destruct (process_frame_run frame cnts found w Hc Hd)
      as (msgs & E & Hs & Hl).
    exists found. eexists. exists msgs.
    split; [exact Hd|]. split; [exact E|].
    split; [reflexivity|]. split; [exact Hc|]. split; assumption.
  - rewrite (oblivious_process_frame fdiv frame w).
    rewrite (process_frame_raises fdiv frame e Hc). simpl.
    now rewrite app_nil_r.
Qed.

(** X8.  What is drawn on a frame, in this order, over what it carried: the
    enclosing circle and the centroid when a ball was detected and nothing
    otherwise, then the direction label, then the three guide lines; the
    label is red exactly when nothing was detected. *)
Theorem process_frame_rendering
    (frame : Frame) (cnts : list Contour) (found : Found) (w : World) :
  contours frame = Ret cnts ->
  detect fdiv cnts = Ret found ->
  exists f w' text color,
    process_frame fdiv frame w = (Ret f, w') /\
    drawn f = drawn frame ++ marks found
                ++ [Text text (10, 30) (7 # 10) color 2]
                ++ guides (height frame) mid (mid - LATERAL_THRESHOLD)
                          (mid + LATERAL_THRESHOLD) /\
    text = ("Direction: " ++ direction_text (direction_of found))%string /\
    (marks found = [] <-> detection_result found = None) /\
    (color = (0, 0, 255) <-> detection_result found = None).
Proof.
  intros Hc Hd.
  destruct (process_frame_run frame cnts found w Hc Hd) as (msgs & E & _).
  eexists _, _, _, _. split; [exact E|].
  split; [|split; [reflexivity|]].
  - cbn [draw_guidelines draw drawn height].
    rewrite <- !app_assoc. reflexivity.
  - destruct found as [| |center [[x y] radius]];
      [repeat split; reflexivity | repeat split; reflexivity |].
    split; [split; discriminate|]. split; [|discriminate].
    cbn [direction_of]. unfold classify. cbv zeta.
    destruct (fst center <? FRAME_WIDTH / 2 - LATERAL_THRESHOLD);
      [discriminate|].
    destruct (fst center >? FRAME_WIDTH / 2 + LATERAL_THRESHOLD);
      discriminate.
Qed.

End FrameFacts.

(** ** Opening the source *)

Section SourceFacts.

Variable env : Env.

Lemma opened_run (cap : Source) (w : World) :
  opened env cap w =
  if isOpened env cap then
    (Ret (Some cap), w ++ [Log INFO "Video capture initialized successfully"])
  else (Ret None, w ++ [Log ERROR "Failed to open video capture"]).
Proof. unfold opened. destruct (isOpened env cap); reflexivity. Qed.

(** What [initialize_video_capture] returns and leaves, branch by branch. *)
Lemma initialize_run (mode : string) (ip_address : option string)
    (w : World) :
  exists r evs,
    initialize_video_capture env mode ip_address w = (Ret r, w ++ evs) /\
    Forall (fun e => in_startup e = true) evs /\
    match r with
    | Some cap =>
        isOpened env cap = true /\
        filter is_error evs = [] /\
        In (VideoCapture cap) evs /\
        (mode = "web"%string /\ cap = Device 0 \/
         mode = "mobile"%string /\
         exists a, ip_address = Some a /\ a <> ""%string /\
                   cap = Url ("http://" ++ a ++ ":8080/video")%string)
    | None =>
        exists before msg,
          evs = before ++ [Log ERROR msg] /\
          filter is_error before = [] /\
          (before = [] <->
           mode <> "web"%string /\
           (mode <> "mobile"%string \/ truthy ip_address = false))
    end.
Proof.
  unfold initialize_video_capture.
  destruct (String.eqb_spec mode "web") as [Hw|Hw].
  - unfold bind, log, emit. rewrite opened_run.
    destruct (isOpened env (Device 0)) eqn:O.
    + eexists _, [_; _; _]. rewrite <- !app_assoc.
      split; [reflexivity|]. split; [repeat constructor|].
      repeat split; auto. simpl. auto.
    + eexists _, [_; _; _]. rewrite <- !app_assoc.
      split; [reflexivity|]. split; [repeat constructor|].
      eexists [_; _], _. repeat split; try discriminate.
      intros [H _]. contradiction.
  - destruct (String.eqb_spec mode "mobile") as [Hm|Hm]; simpl.
    + destruct ip_address as [[|c a]|]; simpl.
      * eexists _, [_]. split; [reflexivity|].
        split; [repeat constructor|].
        eexists [], _. repeat split; auto; discriminate.
      * unfold bind, log, emit. rewrite opened_run.
        destruct (isOpened env _) eqn:O.
        -- eexists _, [_; _; _]. rewrite <- !app_assoc.
           split; [reflexivity|]. split; [repeat constructor|].
           split; [exact O|]. split; [reflexivity|].
           split; [simpl; auto|]. right. split; [exact Hm|].
           exists (String c a). repeat split. discriminate.
        -- eexists _, [_; _; _]. rewrite <- !app_assoc.
           split; [reflexivity|]. split; [repeat constructor|].
           eexists [_; _], _. repeat split; try discriminate.
           intros [_ [H|H]]; [contradiction|discriminate].
      * eexists _, [_]. split; [reflexivity|].
        split; [repeat constructor|].
        eexists [], _. repeat split; auto; discriminate.
    + eexists _, [_]. split; [reflexivity|].
      split; [repeat constructor|].
      eexists [], _. repeat split; auto.
Qed.

(** X9.  [initialize_video_capture] never raises.  It hands back a capture
    only if that capture has opened, and then it is device 0 in web mode,
    whatever the address, or the stream [http://<ip>:8080/video] in mobile
    mode with a non-empty address; otherwise it hands back nothing and the
    last thing it did was to log the one error of the call, which is the
    only thing it did exactly when the mode or the address was at fault. *)
Theorem initialize_video_capture_result
    (mode : string) (ip_address : option string) (w : World) :
  exists r evs,
    initialize_video_capture env mode ip_address w = (Ret r, w ++ evs) /\
    Forall (fun e => in_startup e = true) evs /\
    match r with
    | Some cap =>
        isOpened env cap = true /\
        filter is_error evs = [] /\
        In (VideoCapture cap) evs /\
        (mode = "web"%string /\ cap = Device 0 \/
         mode = "mobile"%string /\
         exists a, ip_address = Some a /\ a <> ""%string /\
                   cap = Url ("http://" ++ a ++ ":8080/video")%string)
    | None =>
        exists before msg,
          evs = before ++ [Log ERROR msg] /\
          filter is_error before = [] /\
          (before = [] <->
           mode <> "web"%string /\
           (mode <> "mobile"%string \/ truthy ip_address = false))
    end.
Proof. apply initialize_run. Qed.

End SourceFacts.

(** ** Whole runs *)

Section WholeRuns.

Variable fdiv : float -> float -> float.

(** The loop goes on exactly as long as no turn ends it. *)
Lemma loop_None (turns : list Iteration) :
  forall w,
    loop fdiv turns w = None <-> Forall (fun i => ending i = None) turns.
Proof.
  induction turns as [|it turns IH]; intros w; simpl.
  - split; [constructor|reflexivity].
  - rewrite (oblivious_body fdiv it w), body_result.
    destruct (ending it) as [cause|] eqn:E.
    + split.
      * destruct cause; discriminate.
      * intros H. inversion H. congruence.
    + rewrite IH. split.
      * intros H. now constructor.
      * intros H. now inversion H.
Qed.

(** Turns that do not end the loop: one read, one display and one key poll
    each, and no error logged. *)
Lemma loop_continue_counts (before : list Iteration) :
  Forall (fun i => ending i = None) before ->
  forall w, exists evs,
    (forall rest, loop fdiv (before ++ rest) w = loop fdiv rest (w ++ evs)) /\
    List.length (filter is_Read evs) = List.length before /\
    List.length (filter is_Imshow evs) = List.length before /\
    List.length (filter is_WaitKey evs) = List.length before /\
    filter is_error evs = [].
Proof.
  induction 1 as [|it before Hit _ IH]; intros w.
  - exists []. rewrite app_nil_r. repeat split.
  - destruct (body_continue_counts fdiv it Hit) as (R1 & I1 & K1 & E1).
    destruct (IH (w ++ snd (body fdiv it []))) as (evs & L & R2 & I2 & K2 & E2).
    exists (snd (body fdiv it []) ++ evs). repeat split.
    + intros rest. simpl.
      rewrite (oblivious_body fdiv it w), body_result, Hit, L, app_assoc.
      reflexivity.
    + rewrite filter_app, length_app, R1, R2. reflexivity.
    + rewrite filter_app, length_app, I1, I2. reflexivity.
    + rewrite filter_app, length_app, K1, K2. reflexivity.
    + now rewrite filter_app, E1, E2.
Qed.

(** The turn that ends the loop, run from any world. *)
Lemma loop_last (it : Iteration) (after : list Iteration) (cause : Exit)
    (w : World) :
  ending it = Some cause ->
  loop fdiv (it :: after) w = Some (leave cause, w ++ snd (body fdiv it [])).
Proof.
  intros H. simpl. rewrite (oblivious_body fdiv it w), body_result, H.
  destruct cause; reflexivity.
Qed.

(** X11.  The stop key is read through a mask of eight bits: a turn that
    went well so far ends the loop exactly when the code returned by
    [waitKey] is 113 modulo 256, so with modifier bits set as well, and it
    goes on for any other code, the -1 of "no key" included. *)
Theorem stop_key_is_masked
    (it : Iteration) (frame : Frame) (cnts : list Contour) (key : Z)
    (w : World) :
  read it = Ret (Some frame) ->
  contours frame = Ret cnts ->
  imshow it = Ret tt ->
  waitKey it = Ret key ->
  fst (body fdiv it w) =
  if key mod 256 =? 113 then Ret Break else Ret Continue.
Proof.
  intros Hr Hc Hi Hk.
  rewrite (oblivious_body fdiv it w). cbn [fst]. rewrite body_result.
  unfold ending. rewrite Hr, Hc, Hi, Hk.
  change 255 with (Z.ones 8). rewrite Z.land_ones by lia.
  change (2 ^ 8) with 256. unfold ord_q.
  destruct (key mod 256 =? 113); reflexivity.
Qed.

Variable env : Env.

(** X10.  When no capture comes back from [initialize_video_capture],
    [main] returns at once: it has only logged and, at most, created the
    capture; it reads no frame, and releases nothing and closes no window,
    the capture that failed to open included. *)
Theorem main_source_unavailable (args : Args) (w w1 : World) :
  initialize_video_capture env (mode args) (ip args) w = (Ret None, w1) ->
  main fdiv env args w = Some (Ret tt, w1) /\
  exists evs,
    w1 = w ++ evs /\
    Forall (fun e => in_startup e = true) evs /\
    filter is_error evs <> [].
Proof.
  intros H. split; [unfold main; now rewrite H|].
  destruct (initialize_run env (mode args) (ip args) w)
    as (r & evs & E & S & Hr).
  rewrite H in E. injection E as <- ->.
  exists evs. repeat split; try assumption.
  destruct Hr as (before & msg & -> & _).
  rewrite filter_app. simpl. intros F.
  apply app_eq_nil in F. destruct F as [_ F]. discriminate.
Qed.

(** X12.  Once the source is open the run has no end of its own: [main]
    is still running after the turns described exactly when none of them
    is a failed read, an exception or the stop key. *)
Theorem main_runs_until_a_turn_ends_it
    (args : Args) (w w1 : World) (cap : Source) :
  initialize_video_capture env (mode args) (ip args) w
    = (Ret (Some cap), w1) ->
  main fdiv env args w = None <->
  Forall (fun i => ending i = None) (feed env).
Proof.
  intros H. rewrite (main_opened fdiv env args w w1 cap H).
  rewrite <- (loop_None (feed env) w1).
  destruct (loop fdiv (feed env) w1) as [[r w2]|];
    split; try discriminate; reflexivity.
Qed.

(** X13.  An exception in a turn ends the run.  If it is an [Exception],
    it is logged as an error, the only one of the run, the resources are
    released and [main] returns normally; if it is not (a keyboard
    interrupt), nothing is logged for it, the resources are released all
    the same and the exception leaves [main]. *)
Theorem exception_in_a_turn
    (args : Args) (w w1 : World) (cap : Source)
    (before after : list Iteration) (it : Iteration) (e : exn) :
  initialize_video_capture env (mode args) (ip args) w
    = (Ret (Some cap), w1) ->
  feed env = before ++ it :: after ->
  Forall (fun i => ending i = None) before ->
  ending it = Some (Failure e) ->
  exists evs,
    filter is_error evs = [] /\
    main fdiv env args w =
    Some (if is_Exception e
          then (Ret tt,
                w1 ++ evs
                   ++ [Log ERROR ("An error occurred: " ++ str e)%string]
                   ++ cleanup)
          else (Raise e, w1 ++ evs ++ cleanup)).
Proof.
  intros Hopen Hfeed Hbefore Hend.
  destruct (loop_continue_counts before Hbefore w1)
    as (evs & L & _ & _ & _ & E).
  pose proof (body_trace fdiv it) as T. rewrite Hend in T.
  destruct T as (msgs & tail & T & Et).
  exists (evs ++ snd (body fdiv it [])). split.
  - rewrite filter_app, E, T. simpl.
    now rewrite filter_app, filter_logs, Et by reflexivity.
  - rewrite (main_opened fdiv env args w w1 cap Hopen), Hfeed, L.
    rewrite (loop_last it after (Failure e) _ Hend). simpl.
    destruct (is_Exception e); simpl; rewrite <- !app_assoc; reflexivity.
Qed.

(** X15.  When the operator stops the run, every turn up to that one has
    read one frame, shown it and polled the keyboard once; no error was
    logged, the exit is announced, the resources are released and [main]
    returns normally. *)
Theorem operator_stop
    (args : Args) (w w1 : World) (cap : Source)
    (before after : list Iteration) (it : Iteration) :
  initialize_video_capture env (mode args) (ip args) w
    = (Ret (Some cap), w1) ->
  feed env = before ++ it :: after ->
  Forall (fun i => ending i = None) before ->
  ending it = Some StopKey ->
  exists evs,
    main fdiv env args w =
    Some (Ret tt,
          w1 ++ evs
             ++ [Log INFO "Exit command received - terminating"]
             ++ cleanup) /\
    List.length (filter is_Read evs) = S (List.length before) /\
    List.length (filter is_Imshow evs) = S (List.length before) /\
    List.length (filter is_WaitKey evs) = S (List.length before) /\
    filter is_error evs = [].
Proof.
  intros Hopen Hfeed Hbefore Hend.
  destruct (loop_continue_counts before Hbefore w1)
    as (evs & L & R & I & K & E).
  pose proof (body_trace fdiv it) as T. rewrite Hend in T.
  destruct T as (msgs & f & T).
  exists (evs ++ Read :: map (Log INFO) msgs
              ++ [Imshow FRAME_TITLE f; WaitKey 1]).
  split; [|repeat split].
  - rewrite (main_opened fdiv env args w w1 cap Hopen), Hfeed, L.
    rewrite (loop_last it after StopKey _ Hend), T. simpl.
    rewrite <- !app_assoc. simpl. rewrite <- !app_assoc. reflexivity.
  - rewrite filter_app, length_app, R. simpl.
    rewrite filter_app, filter_logs by reflexivity. simpl. lia.
  - rewrite filter_app, length_app, I. simpl.
    rewrite filter_app, filter_logs by reflexivity. simpl. lia.
  - rewrite filter_app, length_app, K. simpl.
    rewrite filter_app, filter_logs by reflexivity. simpl. lia.
  - rewrite filter_app, E. simpl.
    now rewrite filter_app, filter_logs by reflexivity.
Qed.

End WholeRuns.

Section LaterTurns.

Variable fdiv : float -> float -> float.

(** X14.  What the environment holds beyond the turn that ends the loop
    plays no part in the run: two environments that agree up to that turn
    give the same result and the same trace. *)
Theorem later_turns_are_not_consulted
    (opens : Source -> bool) (before after1 after2 : list Iteration)
    (it : Iteration) (cause : Exit) (args : Args) (w : World) :
  Forall (fun i => ending i = None) before ->
  ending it = Some cause ->
  main fdiv (mkEnv opens (before ++ it :: after1)) args w
  = main fdiv (mkEnv opens (before ++ it :: after2)) args w.
Proof.
  intros Hbefore Hend. unfold main.
  change (initialize_video_capture
            (mkEnv opens (before ++ it :: after2)) (mode args) (ip args) w)
    with (initialize_video_capture
            (mkEnv opens (before ++ it :: after1)) (mode args) (ip args) w).
  destruct (initialize_video_capture _ (mode args) (ip args) w)
    as [[[cap|]|e] w1]; try reflexivity.
  cbn [feed].
  destruct (loop_continue fdiv before Hbefore w1) as (evs & L & _).
  rewrite !L, !(loop_last fdiv it _ cause _ Hend). reflexivity.
Qed.

End LaterTurns.

(** * The further properties on sample data *)

Section FurtherInstances.

Import Sample.

Lemma drawn_circle_at_least_minimum_witness :
  exists f w',
    process_frame fdiv (frame_with [ball]) [Read] = (Ret f, w') /\
    In (Circle (int 450, int 200) (int 30) (0, 255, 255) 2) (drawn f) /\
    MIN_RADIUS <= int 30.
Proof.
  apply (drawn_circle_at_least_minimum fdiv (frame_with [ball]) [ball]
           (450, 200) 450%Q 200%Q 30%Q [Read]); reflexivity.
Defined.


Lemma classify_monotone_witness :
  rank (classify 450 1200 100) <= rank (classify 750 1200 100).
Proof.
  apply (classify_monotone 450 750 1200 100); lia.
Defined.

Lemma process_frame_rendering_witness :
  exists f w' text color,
    process_frame fdiv (frame_with [strip; patch]) [Read] = (Ret f, w') /\
    drawn f = drawn (frame_with [strip; patch]) ++ marks TooSmall
                ++ [Text text (10, 30) (7 # 10) color 2]
                ++ guides (height (frame_with [strip; patch])) mid
                          (mid - LATERAL_THRESHOLD)
                          (mid + LATERAL_THRESHOLD) /\
    text = ("Direction: " ++ direction_text (direction_of TooSmall))%string /\
    (marks TooSmall = [] <-> detection_result TooSmall = None) /\
    (color = (0, 0, 255) <-> detection_result TooSmall = None).
Proof.
  apply (process_frame_rendering fdiv (frame_with [strip; patch])
           [strip; patch] TooSmall [Read]); reflexivity.
Defined.

Lemma main_source_unavailable_witness :
  main fdiv (unplugged [turn [ball] 113]) web []
  = Some (Ret tt,
          [ Log INFO "Initializing webcam video capture";
            VideoCapture (Device 0);
            Log ERROR "Failed to open video capture" ]) /\
  exists evs,
    [ Log INFO "Initializing webcam video capture";
      VideoCapture (Device 0);
      Log ERROR "Failed to open video capture" ] = [] ++ evs /\
    Forall (fun e => in_startup e = true) evs /\
    filter is_error evs <> [].
Proof.
  apply (main_source_unavailable fdiv (unplugged [turn [ball] 113]) web []).
  reflexivity.
Defined.

Lemma stop_key_is_masked_witness :
  fst (body fdiv (turn [ball] 1048689) [])
  = if 1048689 mod 256 =? 113 then Ret Break else Ret Continue.
Proof.
  apply (stop_key_is_masked fdiv (turn [ball] 1048689) (frame_with [ball])
           [ball] 1048689 []); reflexivity.
Defined.

Lemma main_runs_until_a_turn_ends_it_witness :
  main fdiv (stream [turn [ball] (-1); turn [] 81]) web [] = None <->
  Forall (fun i => ending i = None) [turn [ball] (-1); turn [] 81].
Proof.
  apply (main_runs_until_a_turn_ends_it fdiv
           (stream [turn [ball] (-1); turn [] 81]) web [] started (Device 0)).
  reflexivity.
Defined.

Lemma exception_in_a_turn_witness :
  exists evs,
    filter is_error evs = [] /\
    main fdiv (stream [turn [ball] (-1); broken; turn [ball] 113]) web []
    = Some (Ret tt,
            started ++ evs
              ++ [Log ERROR ("An error occurred: " ++ "bad frame")%string]
              ++ cleanup).
Proof.
  apply (exception_in_a_turn fdiv
           (stream [turn [ball] (-1); broken; turn [ball] 113]) web []
           started (Device 0) [turn [ball] (-1)] [turn [ball] 113] broken
           (Error "bad frame")).
  - reflexivity.
  - reflexivity.
  - repeat constructor.
  - reflexivity.
Defined.

Lemma later_turns_are_not_consulted_witness :
  main fdiv (mkEnv (fun _ => true)
                   ([turn [ball] (-1)] ++ end_of_stream :: [turn [ball] 113]))
       web []
  = main fdiv (mkEnv (fun _ => true)
                     ([turn [ball] (-1)] ++ end_of_stream :: [broken]))
         web [].
Proof.
  apply (later_turns_are_not_consulted fdiv (fun _ => true)
           [turn [ball] (-1)] [turn [ball] 113] [broken] end_of_stream
           ReadFailure web []).
  - repeat constructor.
  - reflexivity.
Defined.

Lemma operator_stop_witness :
  exists evs,
    main fdiv (stream [turn [] (-1); turn [ball] 113; broken]) web []
    = Some (Ret tt,
            started ++ evs
              ++ [Log INFO "Exit command received - terminating"]
              ++ cleanup) /\
    List.length (filter is_Read evs) = 2%nat /\
    List.length (filter is_Imshow evs) = 2%nat /\
    List.length (filter is_WaitKey evs) = 2%nat /\
    filter is_error evs = [].
Proof.
  apply (operator_stop fdiv
           (stream [turn [] (-1); turn [ball] 113; broken]) web []
           started (Device 0) [turn [] (-1)] [broken] (turn [ball] 113)).
  - reflexivity.
  - reflexivity.
  - repeat constructor.
  - reflexivity.
Defined.

End FurtherInstances.
